(** * r4::matrix3 — a 3x3 column-major matrix over a generic scalar

    Shallow embedding of [src/r4/matrix3.hpp].  The class template
    [matrix3<T>] is modelled over an arbitrary scalar type [T] carrying the
    operations the header uses; objects that are mutated through [this]
    live in a store indexed by addresses, so that reference parameters may
    alias the object a method is called on. *)

From Stdlib Require Import ZArith Ring Reals.
From stdpp Require Import base option gmap.

(** ** The scalar type [T]

    [template <typename T>]: the header builds scalars from the literals
    [0] and [1] and combines them with [+] and [*] (through the vector
    operators); subtraction and negation belong to the same numeric
    interface. *)

Class Scalar (T : Type) : Type := {
  zero : T;
  one : T;
  add : T → T → T;
  mul : T → T → T;
  sub : T → T → T;
  opp : T → T
}.

Declare Scope scalar_scope.
Delimit Scope scalar_scope with T.
Notation "0" := zero : scalar_scope.
Notation "1" := one : scalar_scope.
Infix "+" := add : scalar_scope.
Infix "*" := mul : scalar_scope.
Infix "-" := sub : scalar_scope.
Notation "- a" := (opp a) : scalar_scope.

(** Exact arithmetic: the laws of a commutative ring. *)
Definition scalar_ring (T : Type) `{Scalar T} : Prop :=
  ring_theory 0%T 1%T add mul sub opp (@eq T).

#[export] Instance Z_scalar : Scalar Z :=
  {| zero := 0%Z; one := 1%Z; add := Z.add; mul := Z.mul;
     sub := Z.sub; opp := Z.opp |}.

#[export] Instance R_scalar : Scalar R :=
  {| zero := 0%R; one := 1%R; add := Rplus; mul := Rmult;
     sub := Rminus; opp := Ropp |}.

(** Modelled from the spec: the headers of [vector2], [vector3] and
    [vector4] are not among the sources.  When a shorter vector is turned
    into a longer one the new component is filled by those headers; the
    fill values are parameters of the model. *)
Class Padding (T : Type) : Type := {
  pad_z : T;   (* third component given to a vector2 seen as a vector3 *)
  pad_w : T    (* fourth component given to a vector3 seen as a vector4 *)
}.

Section Vectors.
Context {T : Type} {scalar : Scalar T} {padding : Padding T}.

(** Modelled from the spec: [vector2] exposes the components [x], [y]. *)
Record vector2 : Type := Vector2 { x : T; y : T }.

(** Modelled from the spec: [vector3] has three components, read and
    written by index [0..2], with component-wise [+], scalar [*] and a
    dot product. *)
Record vector3 : Type := Vector3 { x3 : T; y3 : T; z3 : T }.

(** Modelled from the spec: [vector4] only shapes the parameters of the
    three-column constructor. *)
Record vector4 : Type := Vector4 { x4 : T; y4 : T; z4 : T; w4 : T }.

(** [vec[i]] read; [None] stands for the undefined out-of-range access. *)
Definition vector3_index (v : vector3) (i : N) : option T :=
  if (i <? 3)%N then [x3 v; y3 v; z3 v] !! N.to_nat i else None.

(** [vec[i] = a], a write through the returned reference. *)
Definition vector3_set (v : vector3) (i : N) (a : T) : option vector3 :=
  match i with
  | 0%N => Some (Vector3 a (y3 v) (z3 v))
  | 1%N => Some (Vector3 (x3 v) a (z3 v))
  | 2%N => Some (Vector3 (x3 v) (y3 v) a)
  | _ => None
  end.

(** [vec * num] *)
Definition vector3_scale (v : vector3) (a : T) : vector3 :=
  Vector3 (x3 v * a)%T (y3 v * a)%T (z3 v * a)%T.

(** [u + v] *)
Definition vector3_add (u v : vector3) : vector3 :=
  Vector3 (x3 u + x3 v)%T (y3 u + y3 v)%T (z3 u + z3 v)%T.

(** [u * v], the dot product *)
Definition dot (u v : vector3) : T :=
  (x3 u * x3 v + y3 u * y3 v + z3 u * z3 v)%T.

Definition vector3_of_vector2 (v : vector2) : vector3 :=
  Vector3 (x v) (y v) pad_z.

Definition vector4_of_vector3 (v : vector3) : vector4 :=
  Vector4 (x3 v) (y3 v) (z3 v) pad_w.

Definition vector3_of_vector4 (v : vector4) : vector3 :=
  Vector3 (x4 v) (y4 v) (z4 v).

(** [row * vec] with [vec] a [vector2]: the dot product after the
    conversion of [vec]. *)
Definition dot2 (u : vector3) (v : vector2) : T :=
  dot u (vector3_of_vector2 v).

End Vectors.

Arguments vector2 T : clear implicits.
Arguments vector3 T : clear implicits.
Arguments vector4 T : clear implicits.

(** ** The matrix and its read-only members *)

Section Matrix3.
Context {T : Type} {scalar : Scalar T} {padding : Padding T}.

(** Three columns, stored one after the other. *)
Record matrix3 : Type := Matrix3 {
  c0 : vector3 T;
  c1 : vector3 T;
  c2 : vector3 T
}.

(** [matrix3(column0, column1, column2)]: the parameters are written as
    [vector4] in the header and initialise the [vector3] members. *)
Definition matrix3_ctor (column0 column1 column2 : vector4 T) : matrix3 :=
  Matrix3 (vector3_of_vector4 column0)
          (vector3_of_vector4 column1)
          (vector3_of_vector4 column2).

(** [operator[](col)]: [ASSERT(col < 3)] then [(&this->c0)[col]].
    [None] stands for the undefined access past the third column. *)
Definition op_index (this : matrix3) (col : N) : option (vector3 T) :=
  if (col <? 3)%N
  then [c0 this; c1 this; c2 this] !! N.to_nat col
  else None.

(** [row(rowNum)] *)
Definition row (this : matrix3) (rowNum : N) : option (vector3 T) :=
  if (rowNum <? 3)%N
  then a ← vector3_index (c0 this) rowNum;
       b ← vector3_index (c1 this) rowNum;
       c ← vector3_index (c2 this) rowNum;
       Some (Vector3 a b c)
  else None.

(** [operator*(const vector2&)] *)
Definition op_mul_vector2 (this : matrix3) (vec : vector2 T)
  : option (vector2 T) :=
  r0 ← row this 0;
  r1 ← row this 1;
  Some (Vector2 (dot2 r0 vec) (dot2 r1 vec)).

(** [operator*(const vector3&)] *)
Definition op_mul_vector3 (this : matrix3) (vec : vector3 T)
  : option (vector3 T) :=
  r0 ← row this 0;
  r1 ← row this 1;
  r2 ← row this 2;
  Some (Vector3 (dot r0 vec) (dot r1 vec) (dot r2 vec)).

(** [this->row(i) * matr[k]], one entry of the product *)
Definition row_times_col (this : matrix3) (i : N) (matr : matrix3) (k : N)
  : option T :=
  r ← row this i;
  c ← op_index matr k;
  Some (dot r c).

(** [operator*(const matrix3&)] *)
Definition op_mul (this matr : matrix3) : option matrix3 :=
  e00 ← row_times_col this 0 matr 0;
  e10 ← row_times_col this 1 matr 0;
  e20 ← row_times_col this 2 matr 0;
  e01 ← row_times_col this 0 matr 1;
  e11 ← row_times_col this 1 matr 1;
  e21 ← row_times_col this 2 matr 1;
  e02 ← row_times_col this 0 matr 2;
  e12 ← row_times_col this 1 matr 2;
  e22 ← row_times_col this 2 matr 2;
  Some (matrix3_ctor
          (vector4_of_vector3 (Vector3 e00 e10 e20))
          (vector4_of_vector3 (Vector3 e01 e11 e21))
          (vector4_of_vector3 (Vector3 e02 e12 e22))).

(** The matrix that [identity()] writes. *)
Definition identity_matrix : matrix3 :=
  Matrix3 (Vector3 1 0 0)%T (Vector3 0 1 0)%T (Vector3 0 0 1)%T.

End Matrix3.

Arguments matrix3 T : clear implicits.

(** ** Objects in memory and the members that write through [this]

    A [matrix3] object lives at an address; [this] and every
    [const matrix3&] parameter are addresses into one store, so the two may
    name the same object.  A computation either yields a value and the next
    store, or has no defined outcome ([None]): an access through an address
    that holds no object, or an index out of range. *)

Abbreviation loc := positive (only parsing).

Section Methods.
Context {T : Type} {scalar : Scalar T} {padding : Padding T}.

Definition M (A : Type) : Type :=
  gmap loc (matrix3 T) → option (A * gmap loc (matrix3 T)).

#[export] Instance M_ret : MRet M := λ A a s, Some (a, s).
#[export] Instance M_bind : MBind M := λ A B k c s,
  match c s with
  | Some (a, s') => k a s'
  | None => None
  end.

Definition lift {A : Type} (o : option A) : M A :=
  λ s, a ← o; Some (a, s).

(** Read the object at [l]. *)
Definition load (l : loc) : M (matrix3 T) :=
  λ s, m ← s !! l; Some (m, s).

(** [operator=]: overwrite the object at [l]. *)
Definition assign (l : loc) (m : matrix3 T) : M unit :=
  λ s, _ ← s !! l; Some ((), <[l := m]> s).

(** The data members [c0], [c1], [c2]. *)
Inductive member : Type := C0 | C1 | C2.

Definition get_member (c : member) (m : matrix3 T) : vector3 T :=
  match c with C0 => c0 m | C1 => c1 m | C2 => c2 m end.

Definition set_member (c : member) (m : matrix3 T) (v : vector3 T)
  : matrix3 T :=
  match c with
  | C0 => Matrix3 v (c1 m) (c2 m)
  | C1 => Matrix3 (c0 m) v (c2 m)
  | C2 => Matrix3 (c0 m) (c1 m) v
  end.

(** [this->c = v] *)
Definition assign_member (this : loc) (c : member) (v : vector3 T)
  : M unit :=
  m ← load this;
  assign this (set_member c m v).

(** [this->c *= a] *)
Definition scale_member (this : loc) (c : member) (a : T) : M unit :=
  m ← load this;
  assign this (set_member c m (vector3_scale (get_member c m) a)).

(** The lvalue [this->c[i]]: read and write. *)
Definition elem_read (r : loc * member * N) : M T :=
  let '(this, c, i) := r in
  m ← load this;
  lift (vector3_index (get_member c m) i).

Definition elem_write (r : loc * member * N) (a : T) : M unit :=
  let '(this, c, i) := r in
  m ← load this;
  v ← lift (vector3_set (get_member c m) i a);
  assign this (set_member c m v).

(** [std::swap(a, b)] on two element lvalues *)
Definition swap (a b : loc * member * N) : M unit :=
  tmp ← elem_read a;
  vb ← elem_read b;
  elem_write a vb;;
  elem_write b tmp.

(** [this->operator*(vec)] and [this->operator*(matr)] on objects in the
    store; both are [const]. *)
Definition op_mul_vector2_at (this : loc) (vec : vector2 T)
  : M (vector2 T) :=
  m ← load this; lift (op_mul_vector2 m vec).

Definition op_mul_vector3_at (this : loc) (vec : vector3 T)
  : M (vector3 T) :=
  m ← load this; lift (op_mul_vector3 m vec).

Definition op_mul_at (this matr : loc) : M (matrix3 T) :=
  a ← load this;
  b ← load matr;
  lift (op_mul a b).

(** [transpose()] *)
Definition transpose (this : loc) : M loc :=
  swap (this, C0, 1%N) (this, C1, 0%N);;
  swap (this, C0, 2%N) (this, C2, 0%N);;
  swap (this, C1, 2%N) (this, C2, 1%N);;
  mret this.

(** [operator*=(matr)]: [this->operator=(this->operator*(matr))] *)
Definition op_mul_assign (this matr : loc) : M loc :=
  p ← op_mul_at this matr;
  assign this p;;
  mret this.

(** [right_mul(matr)] *)
Definition right_mul (this matr : loc) : M loc :=
  op_mul_assign this matr.

(** [left_mul(matr)]: [this->operator=(matr.operator*( *this))] *)
Definition left_mul (this matr : loc) : M loc :=
  p ← op_mul_at matr this;
  assign this p;;
  mret this.

(** [identity()] *)
Definition identity (this : loc) : M loc :=
  assign_member this C0 (Vector3 1 0 0)%T;;
  assign_member this C1 (Vector3 0 1 0)%T;;
  assign_member this C2 (Vector3 0 0 1)%T;;
  mret this.

(** [scale(x, y)] *)
Definition scale (this : loc) (x y : T) : M loc :=
  scale_member this C0 x;;
  scale_member this C1 y;;
  mret this.

(** The overloads of [scale] that the class declares, each by the kinds of
    its parameters: [scale(T x, T y)], [scale(T s)] and
    [scale(const vector2<T>& s)]. *)
Inductive param : Type := T_param | vector2_param.

Definition scale_overloads : list (list param) :=
  [[T_param; T_param]; [T_param]; [vector2_param]].

(** The overloads that a call [this->scale(...)] with [n] arguments can
    select: none of them has a default argument, so an overload is viable
    only when it has [n] parameters. *)
Definition viable_scale (n : nat) : list (list param) :=
  filter (λ ps, length ps = n) scale_overloads.

(** [scale(s)]: [return this->scale(s, s, s);].  The call runs the overload
    it selects among those viable for three arguments; [body] is what a
    selected overload does with the three arguments.  With no viable
    overload the call, and so the member, has no outcome. *)
Definition scale_uniform
    (body : list param → loc → T → T → T → M loc)
    (this : loc) (s : T) : M loc :=
  match viable_scale 3 with
  | ps :: _ => body ps this s s s
  | [] => λ _, None
  end.

(** [scale(const vector2&)] *)
Definition scale_vector2 (this : loc) (s : vector2 T) : M loc :=
  scale this (x s) (y s).

(** [translate(x, y)] *)
Definition translate (this : loc) (x y : T) : M loc :=
  m ← load this;
  assign_member this C2
    (vector3_add
       (vector3_add (vector3_scale (c0 m) x) (vector3_scale (c1 m) y))
       (c2 m));;
  mret this.

(** [translate(const vector2&)] *)
Definition translate_vector2 (this : loc) (t : vector2 T) : M loc :=
  translate this (x t) (y t).

End Methods.

(** ** Rotation, over the real numbers *)

Section Rotation.
Context {padding : Padding R}.

(** Modelled from the spec: [rotate(T rot)] is declared in the header and
    defined nowhere in it.  The spec makes it the right-multiplication by
    the matrix of the counter-clockwise rotation by [rot] radians about
    the third axis; real numbers stand for the scalar type. *)
Definition rotation_matrix (rot : R) : matrix3 R :=
  Matrix3 (Vector3 (cos rot) (sin rot) 0%R)
          (Vector3 (- sin rot)%R (cos rot) 0%R)
          (Vector3 0%R 0%R 1%R).

Definition rotate (this : loc) (rot : R) : M loc :=
  m ← load this;
  p ← lift (op_mul m (rotation_matrix rot));
  assign this p;;
  mret this.

End Rotation.

(** ** Further members: references to columns, copies, conversions *)

Section FurtherMembers.
Context {T : Type} {scalar : Scalar T} {padding : Padding T}.

(** The non-const [operator[](col)]: [ASSERT(col < 3)], then a reference
    to [(&this->c0)[col]], the data member of that number inside the object
    at [this]. *)
Definition op_index_ref (this : loc) (col : N) : @M T (loc * member) :=
  _ ← load this;
  c ← lift (if (col <? 3)%N then [C0; C1; C2] !! N.to_nat col else None);
  mret (this, c).

(** Reading and assigning through a reference to a column. *)
Definition ref_read (r : loc * member) : M (vector3 T) :=
  m ← load r.1;
  mret (get_member r.2 m).

Definition ref_write (r : loc * member) (v : vector3 T) : @M T unit :=
  assign_member r.1 r.2 v.

(** The const [operator[](col)] on an object in the store. *)
Definition op_index_at (this : loc) (col : N) : M (vector3 T) :=
  m ← load this; lift (op_index m col).

End FurtherMembers.

Section Converting.
Context {TT T : Type} (conv : TT → T).

(** Modelled from the spec: the converting constructor of [vector3] is in
    a header that is not among the sources; it converts each component. *)
Definition vector3_convert (v : vector3 TT) : vector3 T :=
  Vector3 (conv (x3 v)) (conv (y3 v)) (conv (z3 v)).

(** [template <class TT> matrix3(const matrix3<TT>& m)]:
    [c0(m.c0), c1(m.c1), c2(m.c2)] *)
Definition matrix3_convert (m : matrix3 TT) : matrix3 T :=
  Matrix3 (vector3_convert (c0 m))
          (vector3_convert (c1 m))
          (vector3_convert (c2 m)).

End Converting.

(** ** Integer scalars, for concrete runs *)

#[export] Instance Z_padding : Padding Z := {| pad_z := 0%Z; pad_w := 1%Z |}.

Definition Z_ring : scalar_ring Z := Zth.

#[export] Instance R_padding : Padding R := {| pad_z := 0%R; pad_w := 1%R |}.

(** Two objects, at addresses 1 and 2. *)
Definition sample_matrix : matrix3 Z :=
  (Matrix3 (Vector3 1 2 3) (Vector3 4 5 6) (Vector3 7 8 10))%Z.

Definition other_matrix : matrix3 Z :=
  (Matrix3 (Vector3 0 1 0) (Vector3 (-1) 0 0) (Vector3 2 3 1))%Z.

Definition sample_store : gmap loc (matrix3 Z) :=
  {[ 1%positive := sample_matrix; 2%positive := other_matrix ]}.

(** A store that also holds the matrices of a translation by [(2, 3)], at
    address 2, and of a scaling by [(2, 3)], at address 3. *)
Definition builder_store : gmap loc (matrix3 Z) :=
  {[ 1%positive := sample_matrix;
     2%positive := (Matrix3 (Vector3 1 0 0) (Vector3 0 1 0) (Vector3 2 3 1))%Z;
     3%positive := (Matrix3 (Vector3 2 0 0) (Vector3 0 3 0) (Vector3 0 0 1))%Z
  ]}.

(** One object over the reals, at address 1. *)
Definition real_store : gmap loc (matrix3 R) :=
  {[ 1%positive :=
       (Matrix3 (Vector3 2 0 0) (Vector3 0 3 0) (Vector3 1 1 1))%R ]}.

(** ** Running a method on a store *)

Section Running.
Context {T : Type} {scalar : Scalar T} {padding : Padding T}.
Implicit Types (s : gmap loc (matrix3 T)) (m : matrix3 T) (l : loc).

Lemma run_bind {A B : Type} (c : M A) (k : A → M B) s a s' r :
  c s = Some (a, s') → k a s' = r → (c ≫= k) s = r.
Proof. intros Hc Hk. unfold mbind, M_bind. now rewrite Hc. Qed.

Lemma run_ret_eq {A : Type} (a a' : A) s s' :
  a = a' → s = s' → mret (M := M) a s = Some (a', s').
Proof. now intros -> ->. Qed.

Lemma run_lift_eq {A : Type} (o : option A) (a a' : A) s s' :
  o = Some a → a = a' → s = s' → lift o s = Some (a', s').
Proof. now intros -> -> ->. Qed.

Lemma run_load l m s : s !! l = Some m → load l s = Some (m, s).
Proof. intros Hl. unfold load. now rewrite Hl. Qed.

Lemma run_assign l m m' s :
  s !! l = Some m → assign l m' s = Some ((), <[l := m']> s).
Proof. intros Hl. unfold assign. now rewrite Hl. Qed.

Lemma run_load_here l m s :
  load l (<[l := m]> s) = Some (m, <[l := m]> s).
Proof. apply run_load, lookup_insert_eq. Qed.

Lemma run_assign_here l m m' s :
  assign l m' (<[l := m]> s) = Some ((), <[l := m']> s).
Proof.
  rewrite (run_assign l m) by apply lookup_insert_eq.
  now rewrite insert_insert_eq.
Qed.

End Running.

(** [mrun] executes a computation step by step: the first computation of a
    bind is run to its value and store, then the continuation. *)
Ltac mrun :=
  lazymatch goal with
  | |- (_ ≫= _) _ = _ =>
      eapply run_bind;
      [ mrun
      | cbv beta;
        cbn [set_member get_member c0 c1 c2 x3 y3 z3
             vector3_scale vector3_add];
        mrun ]
  | |- mret _ _ = _ => apply run_ret_eq; try reflexivity
  | |- lift _ _ = _ =>
      eapply run_lift_eq;
      [ first [ eassumption | reflexivity ]
      | try reflexivity
      | try reflexivity ]
  | |- load _ _ = _ =>
      first [ apply run_load_here | eapply run_load; eassumption ]
  | |- assign _ _ _ = _ =>
      first [ apply run_assign_here | eapply run_assign; eassumption ]
  | |- ?f _ = _ => let h := head_of f in unfold h; mrun
  end
with head_of f :=
  lazymatch f with
  | ?g _ => head_of g
  | _ => f
  end.

(** [split_eq] reduces an equation between outcomes, stores, matrices or
    vectors to equations between scalars. *)
Ltac split_eq :=
  cbv [vector3_add vector3_scale dot dot2 vector3_of_vector2
       vector4_of_vector3 vector3_of_vector4 matrix3_ctor identity_matrix
       set_member get_member];
  cbn [x3 y3 z3 x y c0 c1 c2 x4 y4 z4 w4];
  repeat match goal with
    | |- @eq (option _) _ _ => progress f_equal
    | |- @eq (prod _ _) _ _ => progress f_equal
    | |- @eq (gmap _ _) _ _ => progress f_equal
    | |- @eq (matrix3 _) _ _ => progress f_equal
    | |- @eq (vector3 _) _ _ => progress f_equal
    | |- @eq (vector2 _) _ _ => progress f_equal
    end.

(** ** Closed forms of the read-only members and runs of the writers *)

Section Laws.
Context {T : Type} {scalar : Scalar T} {padding : Padding T}.
Implicit Types (s : gmap loc (matrix3 T)) (m A B : matrix3 T).

Lemma index_cases (i : N) : (i < 3)%N → i = 0%N ∨ i = 1%N ∨ i = 2%N.
Proof. lia. Qed.

Lemma op_index_None m (i : N) : (3 ≤ i)%N → op_index m i = None.
Proof.
  intros Hi. unfold op_index.
  destruct (N.ltb_spec i 3) as [Hlt|_]; [lia | reflexivity].
Qed.

Lemma row_None m (i : N) : (3 ≤ i)%N → row m i = None.
Proof.
  intros Hi. unfold row.
  destruct (N.ltb_spec i 3) as [Hlt|_]; [lia | reflexivity].
Qed.

Lemma op_mul_vector3_rows m (v : vector3 T) :
  op_mul_vector3 m v = Some (Vector3
    (dot (Vector3 (x3 (c0 m)) (x3 (c1 m)) (x3 (c2 m))) v)
    (dot (Vector3 (y3 (c0 m)) (y3 (c1 m)) (y3 (c2 m))) v)
    (dot (Vector3 (z3 (c0 m)) (z3 (c1 m)) (z3 (c2 m))) v)).
Proof. reflexivity. Qed.

Lemma op_mul_vector2_rows m (v : vector2 T) :
  op_mul_vector2 m v = Some (Vector2
    (dot2 (Vector3 (x3 (c0 m)) (x3 (c1 m)) (x3 (c2 m))) v)
    (dot2 (Vector3 (y3 (c0 m)) (y3 (c1 m)) (y3 (c2 m))) v)).
Proof. reflexivity. Qed.

Lemma op_mul_columns A B :
  op_mul A B = Some (Matrix3
    (Vector3 (dot (Vector3 (x3 (c0 A)) (x3 (c1 A)) (x3 (c2 A))) (c0 B))
             (dot (Vector3 (y3 (c0 A)) (y3 (c1 A)) (y3 (c2 A))) (c0 B))
             (dot (Vector3 (z3 (c0 A)) (z3 (c1 A)) (z3 (c2 A))) (c0 B)))
    (Vector3 (dot (Vector3 (x3 (c0 A)) (x3 (c1 A)) (x3 (c2 A))) (c1 B))
             (dot (Vector3 (y3 (c0 A)) (y3 (c1 A)) (y3 (c2 A))) (c1 B))
             (dot (Vector3 (z3 (c0 A)) (z3 (c1 A)) (z3 (c2 A))) (c1 B)))
    (Vector3 (dot (Vector3 (x3 (c0 A)) (x3 (c1 A)) (x3 (c2 A))) (c2 B))
             (dot (Vector3 (y3 (c0 A)) (y3 (c1 A)) (y3 (c2 A))) (c2 B))
             (dot (Vector3 (z3 (c0 A)) (z3 (c1 A)) (z3 (c2 A))) (c2 B)))).
Proof. reflexivity. Qed.

Lemma op_mul_is_Some A B : is_Some (op_mul A B).
Proof. rewrite op_mul_columns. eauto. Qed.

Lemma run_op_mul_at (this matr : loc) s A B P :
  s !! this = Some A → s !! matr = Some B → op_mul A B = Some P →
  op_mul_at this matr s = Some (P, s).
Proof. intros HA HB HP. mrun. Qed.

Lemma run_op_mul_assign (this matr : loc) s A B P :
  s !! this = Some A → s !! matr = Some B → op_mul A B = Some P →
  op_mul_assign this matr s = Some (this, <[this := P]> s).
Proof. intros HA HB HP. mrun. Qed.

Lemma run_left_mul (this matr : loc) s A B P :
  s !! this = Some A → s !! matr = Some B → op_mul B A = Some P →
  left_mul this matr s = Some (this, <[this := P]> s).
Proof. intros HA HB HP. mrun. Qed.

Lemma run_identity (this : loc) s m :
  s !! this = Some m →
  identity this s = Some (this, <[this := identity_matrix]> s).
Proof. intros Hm. mrun. Qed.

Lemma run_transpose (this : loc) s m :
  s !! this = Some m →
  transpose this s
  = Some (this,
          <[this := Matrix3
              (Vector3 (x3 (c0 m)) (x3 (c1 m)) (x3 (c2 m)))
              (Vector3 (y3 (c0 m)) (y3 (c1 m)) (y3 (c2 m)))
              (Vector3 (z3 (c0 m)) (z3 (c1 m)) (z3 (c2 m)))]> s).
Proof. intros Hm. mrun. Qed.

Lemma run_scale (this : loc) s m (a b : T) :
  s !! this = Some m →
  scale this a b s
  = Some (this,
          <[this := Matrix3 (vector3_scale (c0 m) a)
                            (vector3_scale (c1 m) b)
                            (c2 m)]> s).
Proof. intros Hm. mrun. Qed.

Lemma run_translate (this : loc) s m (a b : T) :
  s !! this = Some m →
  translate this a b s
  = Some (this,
          <[this := Matrix3 (c0 m) (c1 m)
              (vector3_add
                 (vector3_add (vector3_scale (c0 m) a)
                              (vector3_scale (c1 m) b))
                 (c2 m))]> s).
Proof. intros Hm. mrun. Qed.

End Laws.

(** ** Facts that need the ring laws of the scalars *)

Section RingLaws.
Context {T : Type} {scalar : Scalar T} {padding : Padding T}.
Implicit Types (s : gmap loc (matrix3 T)) (m A B : matrix3 T).
Hypothesis Tring : scalar_ring T.
Add Ring scalar_ring_structure :
  (Tring : ring_theory 0%T 1%T add mul sub opp (@eq T)).

Lemma identity_mul_vector3 (v : vector3 T) :
  op_mul_vector3 identity_matrix v = Some v.
Proof. destruct v. rewrite op_mul_vector3_rows. split_eq; ring. Qed.

Lemma identity_mul_vector2 (v : vector2 T) :
  op_mul_vector2 identity_matrix v = Some v.
Proof. destruct v. rewrite op_mul_vector2_rows. split_eq; ring. Qed.

Lemma identity_mul_l m : op_mul identity_matrix m = Some m.
Proof.
  destruct m as [[] [] []]. rewrite op_mul_columns. split_eq; ring.
Qed.

Lemma identity_mul_r m : op_mul m identity_matrix = Some m.
Proof.
  destruct m as [[] [] []]. rewrite op_mul_columns. split_eq; ring.
Qed.

(** Two matrices that do not commute: a single one in row 0, column 1,
    and a single one in row 1, column 0. *)
Lemma op_mul_not_commutative :
  1%T ≠ 0%T →
  ∀ AB BA,
    op_mul (Matrix3 (Vector3 0 0 0) (Vector3 1 0 0) (Vector3 0 0 0))%T
           (Matrix3 (Vector3 0 1 0) (Vector3 0 0 0) (Vector3 0 0 0))%T
    = Some AB →
    op_mul (Matrix3 (Vector3 0 1 0) (Vector3 0 0 0) (Vector3 0 0 0))%T
           (Matrix3 (Vector3 0 0 0) (Vector3 1 0 0) (Vector3 0 0 0))%T
    = Some BA →
    AB ≠ BA.
Proof.
  intros Hne AB BA HAB HBA Heq. subst BA.
  rewrite op_mul_columns in HAB, HBA.
  rewrite <- HAB in HBA.
  apply (f_equal (λ o, from_option (λ m, x3 (c0 m)) 0%T o)) in HBA.
  cbv [dot from_option] in HBA. cbn [x3 y3 z3 c0 c1 c2] in HBA.
  apply Hne.
  transitivity (0 * 0 + 1 * 1 + 0 * 0)%T; [ring|].
  rewrite <- HBA. ring.
Qed.

Lemma run_identity_translate_scale (this : loc) s m (tx ty a b : T) :
  s !! this = Some m →
  (r ← identity this; r ← translate r tx ty; r ← scale r a b;
   op_mul_vector3_at r (Vector3 0 0 1)%T) s
  = Some (Vector3 tx ty 1%T,
          <[this := Matrix3 (Vector3 a 0 0)%T (Vector3 0 b 0)%T
                            (Vector3 tx ty 1%T)]> s).
Proof. intros Hm. mrun; split_eq; ring. Qed.

Lemma run_identity_translate_translate (this : loc) s m :
  s !! this = Some m →
  (r ← identity this; r ← translate r 1%T 0%T; r ← translate r 0%T 1%T;
   op_mul_vector3_at r (Vector3 0 0 1)%T) s
  = Some (Vector3 1 1 1,
          <[this := Matrix3 (Vector3 1 0 0) (Vector3 0 1 0)
                            (Vector3 1 1 1)]> s)%T.
Proof. intros Hm. mrun; split_eq; ring. Qed.

End RingLaws.

(** ** The specification, claim by claim *)

Section Specification.
Context {T : Type} {scalar : Scalar T} {padding : Padding T}.
Implicit Types (s : gmap loc (matrix3 T)) (m A B : matrix3 T).

(** C1: for objects [A] at [this] and [B] at [matr] (the two addresses may
    be the same), [operator*] yields a new matrix [P] and leaves the store
    as it was; for [i], [k] below 3, column [k] of [P] is [A] applied to
    column [k] of [B], and its component [i] is the dot product of row [i]
    of [A] with column [k] of [B]; [operator*=] then stores [P] at [this],
    the product of the values held before the call. *)
Theorem op_mul_spec (this matr : loc) s A B :
  s !! this = Some A → s !! matr = Some B →
  ∃ P : matrix3 T,
    op_mul_at this matr s = Some (P, s)
    ∧ (∀ i k : N, (i < 3)%N → (k < 3)%N →
         ∃ r c p, row A i = Some r ∧ op_index B k = Some c
                  ∧ op_index P k = Some p
                  ∧ op_mul_vector3 A c = Some p
                  ∧ vector3_index p i = Some (dot r c))
    ∧ op_mul_assign this matr s = Some (this, <[this := P]> s).
Proof.
  intros HA HB. destruct (op_mul_is_Some A B) as [P HP].
  exists P. split; [|split].
  - eapply run_op_mul_at; eassumption.
  - rewrite op_mul_columns in HP. injection HP as <-.
    intros i k Hi Hk.
    destruct (index_cases i Hi) as [->|[->| ->]];
      destruct (index_cases k Hk) as [->|[->| ->]];
      eexists _, _, _; repeat split; reflexivity.
  - eapply run_op_mul_assign; eassumption.
Qed.

(** C2: with [A] at [this] and [B] at [matr], [right_mul] leaves [A * B]
    at [this] and is the same computation as [operator*=]; [left_mul]
    leaves [B * A] at [this]; and over scalars that form a ring with
    [1 ≠ 0] there are [A] and [B] for which the two outcomes differ. *)
Theorem right_mul_left_mul_spec :
  (∀ (this matr : loc) s A B,
     s !! this = Some A → s !! matr = Some B →
     ∃ AB BA : matrix3 T,
       op_mul A B = Some AB ∧ op_mul B A = Some BA
       ∧ right_mul this matr s = Some (this, <[this := AB]> s)
       ∧ right_mul this matr s = op_mul_assign this matr s
       ∧ left_mul this matr s = Some (this, <[this := BA]> s))
  ∧ (scalar_ring T → 1%T ≠ 0%T →
     ∃ A B : matrix3 T,
       ∀ (this matr : loc) s,
         s !! this = Some A → s !! matr = Some B →
         right_mul this matr s ≠ left_mul this matr s).
Proof.
  split.
  - intros this matr s A B HA HB.
    destruct (op_mul_is_Some A B) as [AB HAB].
    destruct (op_mul_is_Some B A) as [BA HBA].
    exists AB, BA. repeat split; try assumption.
    + eapply run_op_mul_assign; eassumption.
    + eapply run_left_mul; eassumption.
  - intros Tring Hne.
    exists (Matrix3 (Vector3 0 0 0) (Vector3 1 0 0) (Vector3 0 0 0))%T,
           (Matrix3 (Vector3 0 1 0) (Vector3 0 0 0) (Vector3 0 0 0))%T.
    intros this matr s HA HB.
    destruct (op_mul_is_Some
                (Matrix3 (Vector3 0 0 0) (Vector3 1 0 0) (Vector3 0 0 0))%T
                (Matrix3 (Vector3 0 1 0) (Vector3 0 0 0) (Vector3 0 0 0))%T)
      as [AB HAB].
    destruct (op_mul_is_Some
                (Matrix3 (Vector3 0 1 0) (Vector3 0 0 0) (Vector3 0 0 0))%T
                (Matrix3 (Vector3 0 0 0) (Vector3 1 0 0) (Vector3 0 0 0))%T)
      as [BA HBA].
    unfold right_mul.
    rewrite (run_op_mul_assign this matr s _ _ AB HA HB HAB).
    rewrite (run_left_mul this matr s _ _ BA HA HB HBA).
    intros Heq. injection Heq as Heq.
    apply (f_equal (λ st : gmap loc (matrix3 T), st !! this)) in Heq.
    rewrite !lookup_insert_eq in Heq. injection Heq as Heq.
    exact (op_mul_not_commutative Tring Hne AB BA HAB HBA Heq).
Qed.

(** C3: [translate(x, y)] keeps columns 0 and 1 and replaces column 2 by
    [c0 * x + c1 * y + c2]; over ring scalars,
    [identity().translate(1, 0).translate(0, 1)] applied to [(0, 0, 1)]
    gives [(1, 1, 1)]. *)
Theorem translate_spec (this : loc) s m (a b : T) :
  s !! this = Some m →
  translate this a b s
  = Some (this,
          <[this := Matrix3 (c0 m) (c1 m)
              (vector3_add
                 (vector3_add (vector3_scale (c0 m) a)
                              (vector3_scale (c1 m) b))
                 (c2 m))]> s)
  ∧ (scalar_ring T →
     (r ← identity this; r ← translate r 1%T 0%T; r ← translate r 0%T 1%T;
      op_mul_vector3_at r (Vector3 0 0 1)%T) s
     = Some (Vector3 1 1 1,
             <[this := Matrix3 (Vector3 1 0 0) (Vector3 0 1 0)
                               (Vector3 1 1 1)]> s)%T).
Proof.
  intros Hm. split.
  - eapply run_translate; eassumption.
  - intros Tring. eapply run_identity_translate_translate; eassumption.
Qed.

(** C4: [scale(x, y)] multiplies column 0 by [x] and column 1 by [y] and
    keeps column 2; over ring scalars, [identity().translate(tx, ty)]
    followed by [scale(x, y)] and applied to [(0, 0, 1)] still gives
    [(tx, ty, 1)], whatever the factors (so for 5, 5 and 2, 2). *)
Theorem scale_spec (this : loc) s m (a b : T) :
  s !! this = Some m →
  scale this a b s
  = Some (this,
          <[this := Matrix3 (vector3_scale (c0 m) a)
                            (vector3_scale (c1 m) b)
                            (c2 m)]> s)
  ∧ (scalar_ring T →
     ∀ tx ty : T,
       (r ← identity this; r ← translate r tx ty; r ← scale r a b;
        op_mul_vector3_at r (Vector3 0 0 1)%T) s
       = Some (Vector3 tx ty 1%T,
               <[this := Matrix3 (Vector3 a 0 0)%T (Vector3 0 b 0)%T
                                 (Vector3 tx ty 1%T)]> s)).
Proof.
  intros Hm. split.
  - eapply run_scale; eassumption.
  - intros Tring tx ty. eapply run_identity_translate_scale; eassumption.
Qed.

(** C5: [scale(s)] does not multiply the three columns by [s]: its body
    calls [scale] with three arguments, the class declares overloads of
    two and of one parameter only, so no overload is viable and the call
    has no outcome, on every store and for every factor, whatever an
    overload of three parameters would have done; the same call with two
    arguments has exactly one viable overload, [scale(T, T)]. *)
Theorem scale_uniform_no_overload
    (body : list param → loc → T → T → T → M loc) (this : loc) s (k : T) :
  viable_scale 3 = []
  ∧ scale_uniform body this k s = None
  ∧ viable_scale 2 = [[T_param; T_param]].
Proof. repeat split. Qed.

(** C6: [identity()] overwrites the three columns with [(1, 0, 0)],
    [(0, 1, 0)], [(0, 0, 1)] whatever the object held before; over ring
    scalars the matrix it leaves maps every [vector3] and every [vector2]
    to itself. *)
Theorem identity_spec (this : loc) s m :
  s !! this = Some m →
  identity this s
  = Some (this,
          <[this := Matrix3 (Vector3 1 0 0) (Vector3 0 1 0)
                            (Vector3 0 0 1)]> s)%T
  ∧ (scalar_ring T →
     (∀ v : vector3 T,
        (r ← identity this; op_mul_vector3_at r v) s
        = Some (v, <[this := Matrix3 (Vector3 1 0 0) (Vector3 0 1 0)
                                     (Vector3 0 0 1)]> s)%T)
     ∧ (∀ v : vector2 T,
          (r ← identity this; op_mul_vector2_at r v) s
          = Some (v, <[this := Matrix3 (Vector3 1 0 0) (Vector3 0 1 0)
                                       (Vector3 0 0 1)]> s)%T)).
Proof.
  intros Hm. split; [eapply run_identity; eassumption|].
  intros Tring. split; intros v.
  - eapply run_bind; [eapply run_identity; eassumption|].
    eapply run_bind; [apply run_load_here|].
    eapply run_lift_eq; [apply (identity_mul_vector3 Tring)|reflexivity..].
  - eapply run_bind; [eapply run_identity; eassumption|].
    eapply run_bind; [apply run_load_here|].
    eapply run_lift_eq; [apply (identity_mul_vector2 Tring)|reflexivity..].
Qed.

(** C8: [transpose()] exchanges [c0[1]] with [c1[0]], [c0[2]] with
    [c2[0]] and [c1[2]] with [c2[1]], keeps the diagonal, and returns the
    address it was called on; calling it twice restores the store. *)
Theorem transpose_spec (this : loc) s m :
  s !! this = Some m →
  transpose this s
  = Some (this,
          <[this := Matrix3
              (Vector3 (x3 (c0 m)) (x3 (c1 m)) (x3 (c2 m)))
              (Vector3 (y3 (c0 m)) (y3 (c1 m)) (y3 (c2 m)))
              (Vector3 (z3 (c0 m)) (z3 (c1 m)) (z3 (c2 m)))]> s)
  ∧ (r ← transpose this; transpose r) s = Some (this, s).
Proof.
  intros Hm. split; [eapply run_transpose; eassumption|].
  eapply run_bind; [eapply run_transpose; eassumption|].
  erewrite run_transpose by apply lookup_insert_eq.
  rewrite insert_insert_eq. cbn [c0 c1 c2 x3 y3 z3].
  f_equal. f_equal. apply insert_id.
  rewrite Hm. now destruct m as [[] [] []].
Qed.

(** C9: for an index below 3, [operator[]] yields the column of that
    number and [row] the vector of the components of that number in the
    three columns; from 3 on neither has a defined outcome; every other
    member has an outcome on every matrix, and every writer on every
    store that holds the objects it is given: no member has an error
    outcome of its own. *)
Theorem index_precondition m :
  (∀ i : N, (i < 3)%N →
     op_index m i
     = Some (match i with 0%N => c0 m | 1%N => c1 m | _ => c2 m end)
     ∧ row m i
       = Some (match i with
               | 0%N => Vector3 (x3 (c0 m)) (x3 (c1 m)) (x3 (c2 m))
               | 1%N => Vector3 (y3 (c0 m)) (y3 (c1 m)) (y3 (c2 m))
               | _ => Vector3 (z3 (c0 m)) (z3 (c1 m)) (z3 (c2 m))
               end))
  ∧ (∀ i : N, (3 ≤ i)%N → op_index m i = None ∧ row m i = None)
  ∧ (∀ v : vector2 T, is_Some (op_mul_vector2 m v))
  ∧ (∀ v : vector3 T, is_Some (op_mul_vector3 m v))
  ∧ (∀ k : matrix3 T, is_Some (op_mul m k))
  ∧ (∀ (this : loc) s, s !! this = Some m →
       is_Some (transpose this s)
       ∧ is_Some (identity this s)
       ∧ (∀ a b : T,
            is_Some (scale this a b s) ∧ is_Some (translate this a b s))
       ∧ (∀ v : vector2 T,
            is_Some (scale_vector2 this v s)
            ∧ is_Some (translate_vector2 this v s))
       ∧ (∀ matr : loc, is_Some (s !! matr) →
            is_Some (op_mul_assign this matr s)
            ∧ is_Some (right_mul this matr s)
            ∧ is_Some (left_mul this matr s))).
Proof.
  repeat apply conj.
  - intros i Hi.
    destruct (index_cases i Hi) as [->|[->| ->]]; split; reflexivity.
  - intros i Hi. split; [now apply op_index_None | now apply row_None].
  - intros v. rewrite op_mul_vector2_rows. eauto.
  - intros v. rewrite op_mul_vector3_rows. eauto.
  - intros k. apply op_mul_is_Some.
  - intros this s Hm. repeat apply conj.
    + erewrite run_transpose by eassumption. eauto.
    + erewrite run_identity by eassumption. eauto.
    + intros a b. split.
      * erewrite run_scale by eassumption. eauto.
      * erewrite run_translate by eassumption. eauto.
    + intros v. unfold scale_vector2, translate_vector2. split.
      * erewrite run_scale by eassumption. eauto.
      * erewrite run_translate by eassumption. eauto.
    + intros matr [k Hk].
      destruct (op_mul_is_Some m k) as [P HP].
      destruct (op_mul_is_Some k m) as [Q HQ].
      unfold right_mul. repeat apply conj.
      * erewrite run_op_mul_assign by eassumption. eauto.
      * erewrite run_op_mul_assign by eassumption. eauto.
      * erewrite run_left_mul by eassumption. eauto.
Qed.

(** C10: over ring scalars, the matrix [I] that [identity()] leaves at
    [this] is a unit of the product on both sides: [I * M = M] and
    [M * I = M] for every matrix [M], also when the factors are read from
    the store. *)
Theorem identity_unit (this : loc) s m :
  scalar_ring T → s !! this = Some m →
  ∃ s' I,
    identity this s = Some (this, s') ∧ s' !! this = Some I
    ∧ (∀ k : matrix3 T, op_mul I k = Some k ∧ op_mul k I = Some k)
    ∧ (∀ (other : loc) (k : matrix3 T), s' !! other = Some k →
         op_mul_at this other s' = Some (k, s')
         ∧ op_mul_at other this s' = Some (k, s')).
Proof.
  intros Tring Hm.
  exists (<[this := identity_matrix]> s), identity_matrix.
  assert (HI : (<[this := identity_matrix]> s) !! this
               = Some identity_matrix) by apply lookup_insert_eq.
  split; [eapply run_identity; eassumption|].
  split; [exact HI|]. split.
  - intros k. split; [apply (identity_mul_l Tring)|].
    apply (identity_mul_r Tring).
  - intros other k Hk. split.
    + eapply run_op_mul_at; [exact HI | eassumption |].
      apply (identity_mul_l Tring).
    + eapply run_op_mul_at; [eassumption | exact HI |].
      apply (identity_mul_r Tring).
Qed.

End Specification.

(** ** Rotation *)

Section RotationLaws.
Context {padding : Padding R}.
Implicit Types (s : gmap loc (matrix3 R)) (m : matrix3 R).

Lemma run_rotate (this : loc) s m (a : R) P :
  s !! this = Some m → op_mul m (rotation_matrix a) = Some P →
  rotate this a s = Some (this, <[this := P]> s).
Proof. intros Hm HP. mrun. Qed.

(** C7: [rotate(a)] stores the product of the matrix with the rotation
    matrix of angle [a] on the right; after [identity()] the result turns
    a vector counter-clockwise by [a] in the plane of the first two axes
    and keeps its third component, and for [a = π/2] it sends [(1, 0, 0)]
    to [(0, 1, 0)]. *)
Theorem rotate_spec (this : loc) s m (a : R) :
  s !! this = Some m →
  (∃ P : matrix3 R,
     op_mul m (rotation_matrix a) = Some P
     ∧ rotate this a s = Some (this, <[this := P]> s))
  ∧ (∀ v : vector3 R,
       (r ← identity this; r ← rotate r a; op_mul_vector3_at r v) s
       = Some (Vector3 (x3 v * cos a - y3 v * sin a)%R
                       (x3 v * sin a + y3 v * cos a)%R
                       (z3 v),
               <[this := rotation_matrix a]> s))
  ∧ (r ← identity this; r ← rotate r (PI / 2)%R;
     op_mul_vector3_at r (Vector3 1 0 0)%R) s
    = Some (Vector3 0 1 0,
            <[this := Matrix3 (Vector3 0 1 0) (Vector3 (-1) 0 0)
                              (Vector3 0 0 1)]> s)%R.
Proof.
  intros Hm. repeat apply conj.
  - destruct (op_mul_is_Some m (rotation_matrix a)) as [P HP].
    exists P. split; [exact HP | eapply run_rotate; eassumption].
  - intros [vx vy vz]. mrun; unfold rotation_matrix; split_eq;
      cbn [zero one add mul sub opp R_scalar]; ring.
  - mrun; unfold rotation_matrix; split_eq;
      cbn [zero one add mul sub opp R_scalar];
      rewrite ?cos_PI2, ?sin_PI2; ring.
Qed.

End RotationLaws.

(** ** Runs on concrete objects *)

Example sample_product :
  op_mul sample_matrix other_matrix
  = Some (Matrix3 (Vector3 4 5 6) (Vector3 (-1) (-2) (-3))
                  (Vector3 21 27 34))%Z.
Proof. reflexivity. Qed.

Example sample_square_in_place :
  op_mul_assign 1 1 sample_store
  = Some (1%positive,
          <[1%positive := (Matrix3 (Vector3 30 36 45) (Vector3 66 81 102)
                                   (Vector3 109 134 169))%Z]> sample_store).
Proof. reflexivity. Qed.

Example sample_translate_twice :
  (r ← identity 1; r ← translate r 1 0; r ← translate r 0 1;
   op_mul_vector3_at r (Vector3 0 0 1))%Z sample_store
  = Some (Vector3 1 1 1,
          <[1%positive := Matrix3 (Vector3 1 0 0) (Vector3 0 1 0)
                                  (Vector3 1 1 1)]> sample_store)%Z.
Proof. reflexivity. Qed.

Example sample_translate_scale :
  (r ← identity 1; r ← translate r 5 5; r ← scale r 2 2;
   op_mul_vector3_at r (Vector3 0 0 1))%Z sample_store
  = Some (Vector3 5 5 1,
          <[1%positive := Matrix3 (Vector3 2 0 0) (Vector3 0 2 0)
                                  (Vector3 5 5 1)]> sample_store)%Z.
Proof. reflexivity. Qed.

Example sample_out_of_range :
  op_index sample_matrix 3 = None ∧ row sample_matrix 3 = None.
Proof. split; reflexivity. Qed.

Lemma op_mul_spec_witness :
  sample_store !! 1%positive = Some sample_matrix
  ∧ ∃ P : matrix3 Z,
      op_mul_at 1 1 sample_store = Some (P, sample_store)
      ∧ (∀ i k : N, (i < 3)%N → (k < 3)%N →
           ∃ r c p, row sample_matrix i = Some r
                    ∧ op_index sample_matrix k = Some c
                    ∧ op_index P k = Some p
                    ∧ op_mul_vector3 sample_matrix c = Some p
                    ∧ vector3_index p i = Some (dot r c))
      ∧ op_mul_assign 1 1 sample_store
        = Some (1%positive, <[1%positive := P]> sample_store).
Proof.
  split; [reflexivity|].
  apply (op_mul_spec 1 1 sample_store sample_matrix sample_matrix);
    reflexivity.
Defined.

Lemma right_mul_left_mul_spec_witness :
  (sample_store !! 1%positive = Some sample_matrix
   ∧ sample_store !! 2%positive = Some other_matrix
   ∧ ∃ AB BA : matrix3 Z,
       op_mul sample_matrix other_matrix = Some AB
       ∧ op_mul other_matrix sample_matrix = Some BA
       ∧ right_mul 1 2 sample_store
         = Some (1%positive, <[1%positive := AB]> sample_store)
       ∧ right_mul 1 2 sample_store = op_mul_assign 1 2 sample_store
       ∧ left_mul 1 2 sample_store
         = Some (1%positive, <[1%positive := BA]> sample_store))
  ∧ (1 ≠ 0)%Z
  ∧ ∃ A B : matrix3 Z,
      ∀ (this matr : loc) (s : gmap loc (matrix3 Z)),
        s !! this = Some A → s !! matr = Some B →
        right_mul this matr s ≠ left_mul this matr s.
Proof.
  destruct (right_mul_left_mul_spec (T := Z)) as [Hall Hex].
  split; [|split].
  - split; [reflexivity|]. split; [reflexivity|].
    apply (Hall 1%positive 2%positive sample_store); reflexivity.
  - discriminate.
  - apply Hex; [exact Z_ring | discriminate].
Defined.

Lemma translate_spec_witness :
  sample_store !! 1%positive = Some sample_matrix
  ∧ translate 1 2%Z 3%Z sample_store
    = Some (1%positive,
            <[1%positive := (Matrix3 (Vector3 1 2 3) (Vector3 4 5 6)
                                     (Vector3 21 27 34))%Z]> sample_store)
  ∧ (r ← identity 1; r ← translate r 1 0; r ← translate r 0 1;
     op_mul_vector3_at r (Vector3 0 0 1))%Z sample_store
    = Some (Vector3 1 1 1,
            <[1%positive := Matrix3 (Vector3 1 0 0) (Vector3 0 1 0)
                                    (Vector3 1 1 1)]> sample_store)%Z.
Proof.
  destruct (translate_spec 1%positive sample_store sample_matrix 2%Z 3%Z
              eq_refl) as [Hcol Hchain].
  split; [reflexivity|]. split; [exact Hcol | exact (Hchain Z_ring)].
Defined.

Lemma scale_spec_witness :
  sample_store !! 1%positive = Some sample_matrix
  ∧ scale 1 2%Z 2%Z sample_store
    = Some (1%positive,
            <[1%positive := (Matrix3 (Vector3 2 4 6) (Vector3 8 10 12)
                                     (Vector3 7 8 10))%Z]> sample_store)
  ∧ (r ← identity 1; r ← translate r 5 5; r ← scale r 2 2;
     op_mul_vector3_at r (Vector3 0 0 1))%Z sample_store
    = Some (Vector3 5 5 1,
            <[1%positive := Matrix3 (Vector3 2 0 0) (Vector3 0 2 0)
                                    (Vector3 5 5 1)]> sample_store)%Z.
Proof.
  destruct (scale_spec 1%positive sample_store sample_matrix 2%Z 2%Z
              eq_refl) as [Hcol Hchain].
  split; [reflexivity|].
  split; [exact Hcol | exact (Hchain Z_ring 5%Z 5%Z)].
Defined.

Lemma identity_spec_witness :
  sample_store !! 2%positive = Some other_matrix
  ∧ identity 2 sample_store
    = Some (2%positive,
            <[2%positive := (Matrix3 (Vector3 1 0 0) (Vector3 0 1 0)
                                     (Vector3 0 0 1))%Z]> sample_store)
  ∧ (r ← identity 2; op_mul_vector3_at r (Vector3 3 (-4) 5)%Z) sample_store
    = Some ((Vector3 3 (-4) 5)%Z,
            <[2%positive := (Matrix3 (Vector3 1 0 0) (Vector3 0 1 0)
                                     (Vector3 0 0 1))%Z]> sample_store)
  ∧ (r ← identity 2; op_mul_vector2_at r (Vector2 3 (-4))%Z) sample_store
    = Some ((Vector2 3 (-4))%Z,
            <[2%positive := (Matrix3 (Vector3 1 0 0) (Vector3 0 1 0)
                                     (Vector3 0 0 1))%Z]> sample_store).
Proof.
  destruct (identity_spec 2%positive sample_store other_matrix eq_refl)
    as [Hid Hunit].
  destruct (Hunit Z_ring) as [H3 H2].
  split; [reflexivity|]. split; [exact Hid|].
  split; [exact (H3 (Vector3 3 (-4) 5)%Z) | exact (H2 (Vector2 3 (-4))%Z)].
Defined.

Lemma transpose_spec_witness :
  sample_store !! 1%positive = Some sample_matrix
  ∧ transpose 1 sample_store
    = Some (1%positive,
            <[1%positive := (Matrix3 (Vector3 1 4 7) (Vector3 2 5 8)
                                     (Vector3 3 6 10))%Z]> sample_store)
  ∧ (r ← transpose 1; transpose r) sample_store
    = Some (1%positive, sample_store).
Proof.
  split; [reflexivity|].
  exact (transpose_spec 1%positive sample_store sample_matrix eq_refl).
Defined.

Lemma index_precondition_witness :
  (2 < 3)%N
  ∧ op_index sample_matrix 2 = Some (Vector3 7 8 10)%Z
  ∧ row sample_matrix 2 = Some (Vector3 3 6 10)%Z
  ∧ sample_store !! 1%positive = Some sample_matrix
  ∧ is_Some (transpose 1 sample_store)
  ∧ is_Some (left_mul 1 2 sample_store).
Proof.
  destruct (index_precondition sample_matrix)
    as (Hidx & _ & _ & _ & _ & Hrun).
  destruct (Hidx 2%N eq_refl) as [Hcol Hrow].
  destruct (Hrun 1%positive sample_store eq_refl)
    as (Htr & _ & _ & _ & Hmul).
  destruct (Hmul 2%positive (ex_intro _ other_matrix eq_refl))
    as (_ & _ & Hleft).
  split; [reflexivity|]. split; [exact Hcol|]. split; [exact Hrow|].
  split; [reflexivity|]. split; [exact Htr | exact Hleft].
Defined.

Lemma identity_unit_witness :
  sample_store !! 1%positive = Some sample_matrix
  ∧ ∃ (s' : gmap loc (matrix3 Z)) (I : matrix3 Z),
      identity 1 sample_store = Some (1%positive, s')
      ∧ s' !! 1%positive = Some I
      ∧ (∀ k : matrix3 Z, op_mul I k = Some k ∧ op_mul k I = Some k)
      ∧ (∀ (other : loc) (k : matrix3 Z), s' !! other = Some k →
           op_mul_at 1 other s' = Some (k, s')
           ∧ op_mul_at other 1 s' = Some (k, s')).
Proof.
  split; [reflexivity|].
  exact (identity_unit 1%positive sample_store sample_matrix Z_ring eq_refl).
Defined.

Lemma rotate_spec_witness :
  real_store !! 1%positive
  = Some (Matrix3 (Vector3 2 0 0) (Vector3 0 3 0) (Vector3 1 1 1))%R
  ∧ (r ← identity 1; r ← rotate r (PI / 2)%R;
     op_mul_vector3_at r (Vector3 1 0 0)%R) real_store
    = Some ((Vector3 0 1 0)%R,
            <[1%positive := (Matrix3 (Vector3 0 1 0) (Vector3 (-1) 0 0)
                                     (Vector3 0 0 1))%R]> real_store).
Proof.
  destruct (rotate_spec 1%positive real_store
              (Matrix3 (Vector3 2 0 0) (Vector3 0 3 0) (Vector3 1 1 1))%R
              (PI / 2)%R eq_refl) as (_ & _ & Hquarter).
  split; [reflexivity | exact Hquarter].
Defined.

(** ** Further properties of the members *)

Section Accessors.
Context {T : Type} {scalar : Scalar T} {padding : Padding T}.
Implicit Types (s : gmap loc (matrix3 T)) (m A B : matrix3 T).

(** X1: rows and columns are read off the same entries: component [k] of
    [row(i)] is component [i] of column [k], and both are defined exactly
    when [i] and [k] are below 3. *)
Theorem row_column_entry m (i k : N) :
  (r ← row m i; vector3_index r k) = (c ← op_index m k; vector3_index c i)
  ∧ (is_Some (r ← row m i; vector3_index r k) ↔ (i < 3)%N ∧ (k < 3)%N).
Proof.
  destruct (N.lt_ge_cases i 3) as [Hi|Hi];
    destruct (N.lt_ge_cases k 3) as [Hk|Hk].
  - destruct (index_cases i Hi) as [->|[->| ->]];
      destruct (index_cases k Hk) as [->|[->| ->]];
      (split; [reflexivity | split; [intros _; split; reflexivity | eauto]]).
  - rewrite (op_index_None m k Hk).
    destruct (index_cases i Hi) as [->|[->| ->]]; cbn;
      unfold vector3_index; destruct (N.ltb_spec k 3); try lia;
      (split; [reflexivity | split; [intros [? [=]] | lia]]).
  - rewrite (row_None m i Hi).
    destruct (index_cases k Hk) as [->|[->| ->]]; cbn;
      unfold vector3_index; destruct (N.ltb_spec i 3); try lia;
      (split; [reflexivity | split; [intros [? [=]] | lia]]).
  - rewrite (row_None m i Hi), (op_index_None m k Hk).
    split; [reflexivity | split; [intros [? [=]] | lia]].
Qed.

(** X2: for [col] below 3 the non-const [operator[]] yields a reference
    into the object itself: reading through it gives the column that the
    const [operator[]] returns, and after an assignment through it the
    object holds the new vector in column [col] and its old vectors in the
    other two columns. *)
Theorem op_index_ref_aliases (this : loc) s m (col : N) (v : vector3 T) :
  s !! this = Some m → (col < 3)%N →
  (∃ c : vector3 T,
     op_index m col = Some c
     ∧ op_index_at this col s = Some (c, s)
     ∧ (r ← op_index_ref this col; ref_read r) s = Some (c, s))
  ∧ ∃ m' : matrix3 T,
      (r ← op_index_ref this col; ref_write r v) s
      = Some ((), <[this := m']> s)
      ∧ op_index m' col = Some v
      ∧ ∀ k : N, k ≠ col → op_index m' k = op_index m k.
Proof.
  intros Hm Hcol.
  destruct (index_cases col Hcol) as [->|[->| ->]];
    (split; [eexists; split; [reflexivity|]; split; mrun|]);
    (eexists; split; [mrun|]; split; [reflexivity|]);
    intros k Hk; destruct (N.lt_ge_cases k 3) as [Hlt|Hge];
    try (now rewrite !op_index_None);
    destruct (index_cases k Hlt) as [->|[->| ->]];
    first [reflexivity | congruence].
Qed.

End Accessors.

Section Composition.
Context {T : Type} {scalar : Scalar T} {padding : Padding T}.
Implicit Types (s : gmap loc (matrix3 T)) (m A B C : matrix3 T).
Hypothesis Tring : scalar_ring T.
Add Ring scalar_ring_composition :
  (Tring : ring_theory 0%T 1%T add mul sub opp (@eq T)).

(** X3: over ring scalars the product acts as the composition of its
    factors: [(A * B) * v] is [A * (B * v)] for every [vector3], and both
    are defined. *)
Theorem op_mul_acts_as_composition A B (v : vector3 T) :
  (P ← op_mul A B; op_mul_vector3 P v)
  = (w ← op_mul_vector3 B v; op_mul_vector3 A w)
  ∧ is_Some (P ← op_mul A B; op_mul_vector3 P v).
Proof.
  rewrite op_mul_columns, op_mul_vector3_rows. cbn [mbind option_bind].
  rewrite !op_mul_vector3_rows. split; [|eauto].
  split_eq; ring.
Qed.

(** X4: over ring scalars the matrix product is associative:
    [(A * B) * C] is [A * (B * C)], and both are defined. *)
Theorem op_mul_assoc A B C :
  (P ← op_mul A B; op_mul P C) = (Q ← op_mul B C; op_mul A Q)
  ∧ is_Some (P ← op_mul A B; op_mul P C).
Proof.
  rewrite !op_mul_columns. cbn [mbind option_bind].
  rewrite !op_mul_columns. split; [|eauto].
  split_eq; ring.
Qed.

(** X5: over ring scalars [operator*(const vector3&)] is linear: it maps
    a sum of vectors to the sum of the images and a vector times a scalar
    to the image times that scalar. *)
Theorem op_mul_vector3_linear m (u v : vector3 T) (k : T) :
  ∃ a b : vector3 T,
    op_mul_vector3 m u = Some a ∧ op_mul_vector3 m v = Some b
    ∧ op_mul_vector3 m (vector3_add u v) = Some (vector3_add a b)
    ∧ op_mul_vector3 m (vector3_scale u k) = Some (vector3_scale a k).
Proof.
  eexists _, _. rewrite !op_mul_vector3_rows.
  split; [reflexivity|]. split; [reflexivity|].
  split; split_eq; ring.
Qed.

End Composition.

Section Builders.
Context {T : Type} {scalar : Scalar T} {padding : Padding T}.
Implicit Types (s : gmap loc (matrix3 T)) (m A B : matrix3 T).
Hypothesis Tring : scalar_ring T.
Add Ring scalar_ring_builders :
  (Tring : ring_theory 0%T 1%T add mul sub opp (@eq T)).

(** X6: over ring scalars two calls of [translate] add up:
    [translate(a, b)] followed by [translate(c, d)] leaves the store that
    one call [translate(a + c, b + d)] leaves. *)
Theorem translate_translate (this : loc) s m (a b c d : T) :
  s !! this = Some m →
  (r ← translate this a b; translate r c d) s
  = translate this (a + c)%T (b + d)%T s
  ∧ is_Some (translate this (a + c)%T (b + d)%T s).
Proof.
  intros Hm. rewrite (run_translate this s m _ _ Hm). split; [|eauto].
  mrun. split_eq; ring.
Qed.

(** X7: over ring scalars two calls of [scale(const vector2&)] multiply
    up: scaling by [u] and then by [v] leaves the store that
    [scale(u.x * v.x, u.y * v.y)] leaves. *)
Theorem scale_vector2_twice (this : loc) s m (u v : vector2 T) :
  s !! this = Some m →
  (r ← scale_vector2 this u; scale_vector2 r v) s
  = scale this (x u * x v)%T (y u * y v)%T s
  ∧ is_Some (scale this (x u * x v)%T (y u * y v)%T s).
Proof.
  intros Hm. rewrite (run_scale this s m _ _ Hm). split; [|eauto].
  mrun. split_eq; ring.
Qed.

(** X8: over ring scalars [translate(a, b)] is the multiplication from the
    right by the translation matrix with columns [(1, 0, 0)], [(0, 1, 0)],
    [(a, b, 1)]: it leaves the store that [right_mul] leaves when called
    with an object holding that matrix. *)
Theorem translate_is_right_mul (this other : loc) s m (a b : T) :
  s !! this = Some m →
  s !! other
  = Some (Matrix3 (Vector3 1 0 0) (Vector3 0 1 0) (Vector3 a b 1))%T →
  translate this a b s = right_mul this other s
  ∧ is_Some (translate this a b s).
Proof.
  intros Hm Ho. destruct m as [[] [] []].
  rewrite (run_translate this s _ _ _ Hm). split; [|eauto].
  unfold right_mul.
  rewrite (run_op_mul_assign this other s _ _ _ Hm Ho (op_mul_columns _ _)).
  split_eq; ring.
Qed.

(** X9: over ring scalars [scale(a, b)] is the multiplication from the
    right by the diagonal matrix with columns [(a, 0, 0)], [(0, b, 0)],
    [(0, 0, 1)]. *)
Theorem scale_is_right_mul (this other : loc) s m (a b : T) :
  s !! this = Some m →
  s !! other
  = Some (Matrix3 (Vector3 a 0 0) (Vector3 0 b 0) (Vector3 0 0 1))%T →
  scale this a b s = right_mul this other s
  ∧ is_Some (scale this a b s).
Proof.
  intros Hm Ho. destruct m as [[] [] []].
  rewrite (run_scale this s _ _ _ Hm). split; [|eauto].
  unfold right_mul.
  rewrite (run_op_mul_assign this other s _ _ _ Hm Ho (op_mul_columns _ _)).
  split_eq; ring.
Qed.

(** X10: over ring scalars [scale] and [translate] do not commute, they
    exchange with rescaled offsets: [scale(a, b)] followed by
    [translate(c, d)] leaves the store that [translate(a * c, b * d)]
    followed by [scale(a, b)] leaves. *)
Theorem scale_translate_exchange (this : loc) s m (a b c d : T) :
  s !! this = Some m →
  (r ← scale this a b; translate r c d) s
  = (r ← translate this (a * c)%T (b * d)%T; scale r a b) s
  ∧ is_Some ((r ← scale this a b; translate r c d) s).
Proof.
  intros Hm.
  assert (Hl : (r ← scale this a b; translate r c d) s
               = Some (this,
                       <[this := Matrix3
                           (vector3_scale (c0 m) a) (vector3_scale (c1 m) b)
                           (vector3_add
                              (vector3_add
                                 (vector3_scale (c0 m) (a * c)%T)
                                 (vector3_scale (c1 m) (b * d)%T))
                              (c2 m))]> s)).
  { mrun. split_eq; ring. }
  rewrite Hl. split; [|eauto]. symmetry. mrun.
Qed.

(** X11: over ring scalars [translate(const vector2&)] is undone by the
    translation with the negated components: the two calls in a row
    restore the store. *)
Theorem translate_vector2_undo (this : loc) s m (t : vector2 T) :
  s !! this = Some m →
  (r ← translate_vector2 this t;
   translate_vector2 r (Vector2 (- x t) (- y t))%T) s
  = Some (this, s).
Proof.
  intros Hm. mrun. rewrite <- (insert_id s this m Hm) at 2.
  destruct m as [[] [] []]. split_eq; ring.
Qed.

End Builders.

Section Objects.
Context {T : Type} {scalar : Scalar T} {padding : Padding T}.
Implicit Types (s : gmap loc (matrix3 T)) (m A B : matrix3 T).

(** X12: value semantics: a writer called on the object at [this], with
    [matr] naming any object of the store, returns [this] and changes no
    other object. *)
Theorem writers_change_this_only (this matr : loc) s m k (a b : T)
    (v : vector2 T) (w : M loc) :
  s !! this = Some m → s !! matr = Some k →
  w ∈ [transpose this; identity this; scale this a b; scale_vector2 this v;
       translate this a b; translate_vector2 this v;
       op_mul_assign this matr; right_mul this matr; left_mul this matr] →
  ∃ s', w s = Some (this, s') ∧ ∀ l : loc, l ≠ this → s' !! l = s !! l.
Proof.
  intros Hm Hk Hw.
  destruct (op_mul_is_Some m k) as [P HP].
  destruct (op_mul_is_Some k m) as [Q HQ].
  assert (Hframe : ∀ m', ∃ s', Some (this, <[this := m']> s) = Some (this, s')
                          ∧ ∀ l : loc, l ≠ this → s' !! l = s !! l).
  { intros m'. eexists. split; [reflexivity|].
    intros l Hl. now apply lookup_insert_ne. }
  repeat (apply elem_of_cons in Hw as [->|Hw]);
    [ rewrite (run_transpose this s m Hm)
    | rewrite (run_identity this s m Hm)
    | rewrite (run_scale this s m _ _ Hm)
    | unfold scale_vector2; rewrite (run_scale this s m _ _ Hm)
    | rewrite (run_translate this s m _ _ Hm)
    | unfold translate_vector2; rewrite (run_translate this s m _ _ Hm)
    | rewrite (run_op_mul_assign this matr s m k P Hm Hk HP)
    | unfold right_mul;
      rewrite (run_op_mul_assign this matr s m k P Hm Hk HP)
    | rewrite (run_left_mul this matr s m k Q Hm Hk HQ)
    | now apply elem_of_nil in Hw ];
    apply Hframe.
Qed.

(** X13: [transpose()] exchanges rows and columns: afterwards [row(i)]
    is what [operator[](i)] gave before and [operator[](i)] is what
    [row(i)] gave before, for every index, in range or not. *)
Theorem transpose_exchanges_rows_and_columns (this : loc) s m :
  s !! this = Some m →
  ∃ m' : matrix3 T,
    transpose this s = Some (this, <[this := m']> s)
    ∧ ∀ i : N, row m' i = op_index m i ∧ op_index m' i = row m i.
Proof.
  intros Hm. eexists. split; [eapply run_transpose; eassumption|].
  intros i. destruct (N.lt_ge_cases i 3) as [Hi|Hi].
  - destruct m as [[] [] []].
    destruct (index_cases i Hi) as [->|[->| ->]]; split; reflexivity.
  - now rewrite !row_None, !op_index_None.
Qed.

End Objects.

Section AffineAndTranspose.
Context {T : Type} {scalar : Scalar T} {padding : Padding T}.
Implicit Types (s : gmap loc (matrix3 T)) (m A B : matrix3 T).
Hypothesis Tring : scalar_ring T.
Add Ring scalar_ring_affine :
  (Tring : ring_theory 0%T 1%T add mul sub opp (@eq T)).

Lemma row_last m :
  row m 2 = Some (Vector3 (z3 (c0 m)) (z3 (c1 m)) (z3 (c2 m))).
Proof. reflexivity. Qed.

(** X14: over ring scalars the transpose of a product is the product of
    the transposes in the opposite order: for two different objects,
    [operator*=] followed by [transpose()] leaves at [this] the matrix that
    transposing both objects and calling [left_mul] leaves there. *)
Theorem transpose_of_product (this matr : loc) s A B :
  this ≠ matr → s !! this = Some A → s !! matr = Some B →
  ∃ (P : matrix3 T) s1 s2,
    (r ← op_mul_assign this matr; transpose r) s = Some (this, s1)
    ∧ (transpose this;; transpose matr;; left_mul this matr) s
      = Some (this, s2)
    ∧ s1 !! this = Some P ∧ s2 !! this = Some P.
Proof.
  intros Hne HA HB. eexists _, _, _. split; [|split; [|split]].
  - eapply run_bind;
      [eapply run_op_mul_assign; [eassumption..|apply op_mul_columns]|].
    eapply run_transpose, lookup_insert_eq.
  - eapply run_bind; [eapply run_transpose; eassumption|].
    eapply run_bind;
      [eapply run_transpose; rewrite lookup_insert_ne by done; eassumption|].
    eapply run_left_mul; [| |apply op_mul_columns].
    + rewrite lookup_insert_ne by done. apply lookup_insert_eq.
    + apply lookup_insert_eq.
  - apply lookup_insert_eq.
  - rewrite lookup_insert_eq. split_eq; ring.
Qed.

(** X15: over ring scalars the members that build 2D transforms keep the
    last row at [(0, 0, 1)]: [identity()] sets it, and [translate],
    [scale(x, y)], [right_mul] and [left_mul] with a matrix of that form
    keep it. *)
Theorem last_row_is_kept (this matr : loc) s m k (a b : T) :
  s !! this = Some m → s !! matr = Some k →
  (∃ m', identity this s = Some (this, <[this := m']> s)
         ∧ row m' 2 = Some (Vector3 0 0 1)%T)
  ∧ (row m 2 = Some (Vector3 0 0 1)%T →
     (∃ m', translate this a b s = Some (this, <[this := m']> s)
            ∧ row m' 2 = Some (Vector3 0 0 1)%T)
     ∧ (∃ m', scale this a b s = Some (this, <[this := m']> s)
              ∧ row m' 2 = Some (Vector3 0 0 1)%T)
     ∧ (row k 2 = Some (Vector3 0 0 1)%T →
        (∃ m', right_mul this matr s = Some (this, <[this := m']> s)
               ∧ row m' 2 = Some (Vector3 0 0 1)%T)
        ∧ (∃ m', left_mul this matr s = Some (this, <[this := m']> s)
                 ∧ row m' 2 = Some (Vector3 0 0 1)%T))).
Proof.
  intros Hm Hk. split.
  { eexists. split; [eapply run_identity; eassumption | reflexivity]. }
  intros Hrow. destruct m as [[? ? z0] [? ? z1] [? ? z2]].
  injection Hrow as -> -> ->.
  split; [|split].
  - eexists. split; [eapply run_translate; eassumption|].
    rewrite row_last. split_eq; ring.
  - eexists. split; [eapply run_scale; eassumption|].
    rewrite row_last. split_eq; ring.
  - intros Hrowk. destruct k as [[? ? w0] [? ? w1] [? ? w2]].
    injection Hrowk as -> -> ->. split.
    + eexists. split;
        [eapply run_op_mul_assign; [eassumption..|apply op_mul_columns]|].
      rewrite row_last. split_eq; ring.
    + eexists. split;
        [eapply run_left_mul; [eassumption..|apply op_mul_columns]|].
      rewrite row_last. split_eq; ring.
Qed.

(** X16: over ring scalars, when the last row of [B] is [(0, 0, 1)] the
    [vector2] overload of [operator*] composes like the product:
    [(A * B) * v] is [A * (B * v)] for every [vector2]. *)
Theorem op_mul_vector2_composes A B (v : vector2 T) :
  row B 2 = Some (Vector3 0 0 1)%T →
  (P ← op_mul A B; op_mul_vector2 P v)
  = (w ← op_mul_vector2 B v; op_mul_vector2 A w)
  ∧ is_Some (P ← op_mul A B; op_mul_vector2 P v).
Proof.
  intros Hrow. destruct B as [[? ? z0] [? ? z1] [? ? z2]].
  injection Hrow as -> -> ->.
  rewrite op_mul_columns, op_mul_vector2_rows. cbn [mbind option_bind].
  rewrite !op_mul_vector2_rows. split; [|eauto].
  split_eq; ring.
Qed.

End AffineAndTranspose.

Section ConvertingLaws.
Context {TT T : Type} {scalarTT : Scalar TT} {scalarT : Scalar T}
        {paddingTT : Padding TT} {paddingT : Padding T}.
Variable conv : TT → T.
Hypothesis conv_add : ∀ a b : TT, conv (a + b)%T = (conv a + conv b)%T.
Hypothesis conv_mul : ∀ a b : TT, conv (a * b)%T = (conv a * conv b)%T.

(** X17: when the conversion of scalars respects [+] and [*], the
    converting constructor respects the products: converting [A * B] gives
    the product of the converted matrices, and converting [A * v] gives the
    converted matrix applied to the converted vector. *)
Theorem matrix3_convert_product (A B : matrix3 TT) (v : vector3 TT) :
  matrix3_convert conv <$> op_mul A B
  = op_mul (matrix3_convert conv A) (matrix3_convert conv B)
  ∧ vector3_convert conv <$> op_mul_vector3 A v
    = op_mul_vector3 (matrix3_convert conv A) (vector3_convert conv v).
Proof.
  rewrite !op_mul_columns, !op_mul_vector3_rows. cbn [fmap option_fmap option_map].
  unfold matrix3_convert, vector3_convert, dot. cbn [c0 c1 c2 x3 y3 z3].
  rewrite !conv_add, !conv_mul. split; reflexivity.
Qed.

End ConvertingLaws.

Section NeutralCalls.
Context {T : Type} {scalar : Scalar T} {padding : Padding T}.
Implicit Types (s : gmap loc (matrix3 T)) (m : matrix3 T).
Hypothesis Tring : scalar_ring T.
Add Ring scalar_ring_neutral :
  (Tring : ring_theory 0%T 1%T add mul sub opp (@eq T)).

(** X18: over ring scalars [translate(0, 0)] and [scale(1, 1)] change
    nothing: each returns [this] and leaves the store as it was. *)
Theorem neutral_builder_calls (this : loc) s m :
  s !! this = Some m →
  translate this 0%T 0%T s = Some (this, s)
  ∧ scale this 1%T 1%T s = Some (this, s).
Proof.
  intros Hm. split.
  - rewrite (run_translate this s m _ _ Hm).
    rewrite <- (insert_id s this m Hm) at 2.
    destruct m as [[] [] []]. split_eq; ring.
  - rewrite (run_scale this s m _ _ Hm).
    rewrite <- (insert_id s this m Hm) at 2.
    destruct m as [[] [] []]. split_eq; ring.
Qed.

End NeutralCalls.

(** ** Runs of the further properties on concrete objects *)

Lemma op_index_ref_aliases_witness :
  sample_store !! 1%positive = Some sample_matrix ∧ (1 < 3)%N
  ∧ (r ← op_index_ref 1 1; ref_read r) sample_store
    = Some ((Vector3 4 5 6)%Z, sample_store)
  ∧ (r ← op_index_ref 1 1; ref_write r (Vector3 0 0 0)%Z) sample_store
    = Some ((), <[1%positive := (Matrix3 (Vector3 1 2 3) (Vector3 0 0 0)
                                         (Vector3 7 8 10))%Z]> sample_store).
Proof.
  destruct (op_index_ref_aliases 1%positive sample_store sample_matrix 1%N
              (Vector3 0 0 0)%Z eq_refl eq_refl)
    as [(c & Hc & _ & Hread) (m' & Hwrite & _ & _)].
  split; [reflexivity|]. split; [reflexivity|]. split.
  - injection Hc as <-. exact Hread.
  - reflexivity.
Defined.

Lemma op_mul_acts_as_composition_witness :
  (P ← op_mul sample_matrix other_matrix; op_mul_vector3 P (Vector3 1 2 3)%Z)
  = (w ← op_mul_vector3 other_matrix (Vector3 1 2 3)%Z;
     op_mul_vector3 sample_matrix w)
  ∧ is_Some (P ← op_mul sample_matrix other_matrix;
             op_mul_vector3 P (Vector3 1 2 3)%Z).
Proof.
  exact (op_mul_acts_as_composition Z_ring sample_matrix other_matrix
           (Vector3 1 2 3)%Z).
Defined.

Lemma op_mul_assoc_witness :
  (P ← op_mul sample_matrix other_matrix; op_mul P sample_matrix)
  = (Q ← op_mul other_matrix sample_matrix; op_mul sample_matrix Q)
  ∧ is_Some (P ← op_mul sample_matrix other_matrix; op_mul P sample_matrix).
Proof.
  exact (op_mul_assoc Z_ring sample_matrix other_matrix sample_matrix).
Defined.

Lemma op_mul_vector3_linear_witness :
  ∃ a b : vector3 Z,
    op_mul_vector3 sample_matrix (Vector3 1 0 2)%Z = Some a
    ∧ op_mul_vector3 sample_matrix (Vector3 0 1 1)%Z = Some b
    ∧ op_mul_vector3 sample_matrix
        (vector3_add (Vector3 1 0 2) (Vector3 0 1 1))%Z
      = Some (vector3_add a b)
    ∧ op_mul_vector3 sample_matrix (vector3_scale (Vector3 1 0 2) 5)%Z
      = Some (vector3_scale a 5%Z).
Proof.
  exact (op_mul_vector3_linear Z_ring sample_matrix (Vector3 1 0 2)%Z
           (Vector3 0 1 1)%Z 5%Z).
Defined.

Lemma translate_translate_witness :
  sample_store !! 1%positive = Some sample_matrix
  ∧ (r ← translate 1 2%Z 3%Z; translate r 4%Z 5%Z) sample_store
    = translate 1 (2 + 4)%Z (3 + 5)%Z sample_store
  ∧ is_Some (translate 1 (2 + 4)%Z (3 + 5)%Z sample_store).
Proof.
  split; [reflexivity|].
  exact (translate_translate Z_ring 1%positive sample_store sample_matrix
           2%Z 3%Z 4%Z 5%Z eq_refl).
Defined.

Lemma scale_vector2_twice_witness :
  sample_store !! 1%positive = Some sample_matrix
  ∧ (r ← scale_vector2 1 (Vector2 2 3)%Z; scale_vector2 r (Vector2 5 7)%Z)
      sample_store
    = scale 1 (2 * 5)%Z (3 * 7)%Z sample_store
  ∧ is_Some (scale 1 (2 * 5)%Z (3 * 7)%Z sample_store).
Proof.
  split; [reflexivity|].
  exact (scale_vector2_twice Z_ring 1%positive sample_store sample_matrix
           (Vector2 2 3)%Z (Vector2 5 7)%Z eq_refl).
Defined.

Lemma translate_is_right_mul_witness :
  builder_store !! 1%positive = Some sample_matrix
  ∧ builder_store !! 2%positive
    = Some (Matrix3 (Vector3 1 0 0) (Vector3 0 1 0) (Vector3 2 3 1))%Z
  ∧ translate 1 2%Z 3%Z builder_store = right_mul 1 2 builder_store
  ∧ is_Some (translate 1 2%Z 3%Z builder_store).
Proof.
  split; [reflexivity|]. split; [reflexivity|].
  exact (translate_is_right_mul Z_ring 1%positive 2%positive builder_store
           sample_matrix 2%Z 3%Z eq_refl eq_refl).
Defined.

Lemma scale_is_right_mul_witness :
  builder_store !! 1%positive = Some sample_matrix
  ∧ builder_store !! 3%positive
    = Some (Matrix3 (Vector3 2 0 0) (Vector3 0 3 0) (Vector3 0 0 1))%Z
  ∧ scale 1 2%Z 3%Z builder_store = right_mul 1 3 builder_store
  ∧ is_Some (scale 1 2%Z 3%Z builder_store).
Proof.
  split; [reflexivity|]. split; [reflexivity|].
  exact (scale_is_right_mul Z_ring 1%positive 3%positive builder_store
           sample_matrix 2%Z 3%Z eq_refl eq_refl).
Defined.

Lemma scale_translate_exchange_witness :
  sample_store !! 1%positive = Some sample_matrix
  ∧ (r ← scale 1 2%Z 3%Z; translate r 5%Z 7%Z) sample_store
    = (r ← translate 1 (2 * 5)%Z (3 * 7)%Z; scale r 2%Z 3%Z) sample_store
  ∧ is_Some ((r ← scale 1 2%Z 3%Z; translate r 5%Z 7%Z) sample_store).
Proof.
  split; [reflexivity|].
  exact (scale_translate_exchange Z_ring 1%positive sample_store
           sample_matrix 2%Z 3%Z 5%Z 7%Z eq_refl).
Defined.

Lemma translate_vector2_undo_witness :
  sample_store !! 1%positive = Some sample_matrix
  ∧ (r ← translate_vector2 1 (Vector2 2 3)%Z;
     translate_vector2 r (Vector2 (- 2) (- 3))%Z) sample_store
    = Some (1%positive, sample_store).
Proof.
  split; [reflexivity|].
  exact (translate_vector2_undo Z_ring 1%positive sample_store sample_matrix
           (Vector2 2 3)%Z eq_refl).
Defined.

Lemma writers_change_this_only_witness :
  sample_store !! 1%positive = Some sample_matrix
  ∧ sample_store !! 2%positive = Some other_matrix
  ∧ ∃ s' : gmap loc (matrix3 Z),
      left_mul 1 2 sample_store = Some (1%positive, s')
      ∧ ∀ l : loc, l ≠ 1%positive → s' !! l = sample_store !! l.
Proof.
  split; [reflexivity|]. split; [reflexivity|].
  apply (writers_change_this_only 1%positive 2%positive sample_store
           sample_matrix other_matrix 0%Z 0%Z (Vector2 0 0)%Z
           (left_mul 1 2) eq_refl eq_refl).
  do 8 apply list_elem_of_further. apply list_elem_of_here.
Defined.

Lemma transpose_exchanges_rows_and_columns_witness :
  sample_store !! 1%positive = Some sample_matrix
  ∧ ∃ m' : matrix3 Z,
      transpose 1 sample_store
      = Some (1%positive, <[1%positive := m']> sample_store)
      ∧ ∀ i : N, row m' i = op_index sample_matrix i
                 ∧ op_index m' i = row sample_matrix i.
Proof.
  split; [reflexivity|].
  exact (transpose_exchanges_rows_and_columns 1%positive sample_store
           sample_matrix eq_refl).
Defined.

Lemma transpose_of_product_witness :
  1%positive ≠ 2%positive
  ∧ sample_store !! 1%positive = Some sample_matrix
  ∧ sample_store !! 2%positive = Some other_matrix
  ∧ ∃ (P : matrix3 Z) (s1 s2 : gmap loc (matrix3 Z)),
      (r ← op_mul_assign 1 2; transpose r) sample_store
      = Some (1%positive, s1)
      ∧ (transpose 1;; transpose 2;; left_mul 1 2) sample_store
        = Some (1%positive, s2)
      ∧ s1 !! 1%positive = Some P ∧ s2 !! 1%positive = Some P.
Proof.
  split; [discriminate|]. split; [reflexivity|]. split; [reflexivity|].
  apply (transpose_of_product Z_ring 1%positive 2%positive sample_store
           sample_matrix other_matrix); [discriminate | reflexivity..].
Defined.

Lemma last_row_is_kept_witness :
  sample_store !! 2%positive = Some other_matrix
  ∧ row other_matrix 2 = Some (Vector3 0 0 1)%Z
  ∧ (∃ m', translate 2 4%Z 5%Z sample_store
           = Some (2%positive, <[2%positive := m']> sample_store)
           ∧ row m' 2 = Some (Vector3 0 0 1)%Z)
  ∧ (∃ m', right_mul 2 2 sample_store
           = Some (2%positive, <[2%positive := m']> sample_store)
           ∧ row m' 2 = Some (Vector3 0 0 1)%Z).
Proof.
  destruct (last_row_is_kept Z_ring 2%positive 2%positive sample_store
              other_matrix other_matrix 4%Z 5%Z eq_refl eq_refl)
    as [_ Hkept].
  destruct (Hkept eq_refl) as (Htr & _ & Hmul).
  destruct (Hmul eq_refl) as [Hright _].
  split; [reflexivity|]. split; [reflexivity|].
  split; [exact Htr | exact Hright].
Defined.

Lemma op_mul_vector2_composes_witness :
  row other_matrix 2 = Some (Vector3 0 0 1)%Z
  ∧ (P ← op_mul sample_matrix other_matrix;
     op_mul_vector2 P (Vector2 3 4)%Z)
    = (w ← op_mul_vector2 other_matrix (Vector2 3 4)%Z;
       op_mul_vector2 sample_matrix w)
  ∧ is_Some (P ← op_mul sample_matrix other_matrix;
             op_mul_vector2 P (Vector2 3 4)%Z).
Proof.
  split; [reflexivity|].
  exact (op_mul_vector2_composes Z_ring sample_matrix other_matrix
           (Vector2 3 4)%Z eq_refl).
Defined.

Lemma matrix3_convert_product_witness :
  (∀ a b : Z, IZR (a + b) = (IZR a + IZR b)%R)
  ∧ (∀ a b : Z, IZR (a * b) = (IZR a * IZR b)%R)
  ∧ matrix3_convert IZR <$> op_mul sample_matrix other_matrix
    = op_mul (matrix3_convert IZR sample_matrix)
             (matrix3_convert IZR other_matrix)
  ∧ vector3_convert IZR <$> op_mul_vector3 sample_matrix (Vector3 1 2 3)%Z
    = op_mul_vector3 (matrix3_convert IZR sample_matrix)
                     (vector3_convert IZR (Vector3 1 2 3)%Z).
Proof.
  split; [exact plus_IZR|]. split; [exact mult_IZR|].
  exact (matrix3_convert_product IZR plus_IZR mult_IZR sample_matrix
           other_matrix (Vector3 1 2 3)%Z).
Defined.

Lemma neutral_builder_calls_witness :
  sample_store !! 1%positive = Some sample_matrix
  ∧ translate 1 0%Z 0%Z sample_store = Some (1%positive, sample_store)
  ∧ scale 1 1%Z 1%Z sample_store = Some (1%positive, sample_store).
Proof.
  split; [reflexivity|].
  exact (neutral_builder_calls Z_ring 1%positive sample_store sample_matrix
           eq_refl).
Defined.
